(** * gaudi_effects: the "exclusion" video filter (src/gstexclusion.c)

    A shallow embedding of the image-processing core of the GStreamer
    0.10 element [exclusion]: the clamp helper [gate_int], the frame loop
    [transform] and the two pad callbacks [gst_exclusion_set_caps] and
    [gst_exclusion_chain], followed by the properties of the design
    document that can be stated over them.

    Conventions.
    - A [guint32] or a [gint] is a [Z]; every C operator is a definition
      of module [C32] that writes out its reduction modulo 2^32.
    - A video buffer is the list of its 32-bit words ([list Z]); the
      pointers [src] and [dest] of [transform] are indices into the two
      buffers, and a read or write past the end of a buffer is the
      explicit fault [OutOfBounds]. *)

From Stdlib Require Import ZArith Lia Bool List.
From stdpp Require Import base list.

Local Open Scope Z_scope.

(** ** 32-bit C arithmetic *)

Module C32.

Definition modulus : Z := 2 ^ 32.
Definition G_MAXINT : Z := 2 ^ 31 - 1.
Definition G_MININT : Z := - 2 ^ 31.

(** Conversion to [guint32]: reduction modulo 2^32. *)
Definition to_guint32 (z : Z) : Z := z mod modulus.

(** Conversion to [gint]: the two's complement reading of the low 32 bits
    (what GCC defines for a value the target type cannot hold). *)
Definition to_gint (z : Z) : Z :=
  let u := z mod modulus in
  if u <? 2 ^ 31 then u else u - modulus.

(** Operators on two [guint32] operands. *)
Definition usub (a b : Z) : Z := (a - b) mod modulus.
Definition uadd (a b : Z) : Z := (a + b) mod modulus.
Definition umul (a b : Z) : Z := (a * b) mod modulus.
(** Unsigned [/]: both operands are non-negative, the quotient truncates. *)
Definition udiv (a b : Z) : Z := Z.quot a b.
Definition ushr (a : Z) (n : Z) : Z := Z.shiftr a n.
Definition ushl (a : Z) (n : Z) : Z := (Z.shiftl a n) mod modulus.
Definition uand (a b : Z) : Z := Z.land a b.
Definition uor (a b : Z) : Z := Z.lor a b.

(** Operators on two [gint] operands.  Signed overflow has no meaning in
    C; the model takes the two's complement result the compiled element
    produces. *)
Definition imul (a b : Z) : Z := to_gint (a * b).
Definition iadd (a b : Z) : Z := to_gint (a + b).

End C32.

Import C32.

(** ** The per-pixel computation *)

(** [gint factor = 175;] *)
Definition factor : Z := 175.

(** Keep the values inbounds (lines 278-287). *)
Definition gate_int (value min max : Z) : Z :=
  if value <? min then min
  else if value >? max then max
  else value.

(** Lines 299-301: the three channels of a packed word. *)
Definition red_of (inp : Z) : Z := uand (ushr inp 16) 0xff.
Definition green_of (inp : Z) : Z := uand (ushr inp 8) 0xff.
Definition blue_of (inp : Z) : Z := uand inp 0xff.

(** Lines 303-305.  [factor] is a [gint] and [red], [green] are [guint32]:
    the usual arithmetic conversions turn [factor] into a [guint32] and
    every operator is the unsigned one. *)
Definition red_formula (red green : Z) : Z :=
  usub (to_guint32 factor)
       (uadd (udiv (umul (usub (to_guint32 factor) red)
                         (usub (to_guint32 factor) red))
                   (to_guint32 factor))
             (udiv (umul green red) (to_guint32 factor))).

(** Lines 306-308. *)
Definition green_formula (green : Z) : Z :=
  usub (to_guint32 factor)
       (uadd (udiv (umul (usub (to_guint32 factor) green)
                         (usub (to_guint32 factor) green))
                   (to_guint32 factor))
             (udiv (umul green green) (to_guint32 factor))).

(** Lines 309-311. *)
Definition blue_formula (blue : Z) : Z :=
  usub (to_guint32 factor)
       (uadd (udiv (umul (usub (to_guint32 factor) blue)
                         (usub (to_guint32 factor) blue))
                   (to_guint32 factor))
             (udiv (umul blue blue) (to_guint32 factor))).

(** Lines 313-315: the [guint32] argument is converted to the [gint]
    parameter of [gate_int], and the [gint] result is stored back into the
    [guint32] variable. *)
Definition gate_channel (c : Z) : Z :=
  to_guint32 (gate_int (to_gint c) 0 255).

(** The body of the loop of [transform] on one word (lines 297-317): what
    the design document calls [transform_pixel]. *)
Definition transform_pixel (inp : Z) : Z :=
  let red := red_of inp in
  let green := green_of inp in
  let blue := blue_of inp in
  let red := red_formula red green in
  let green := green_formula green in
  let blue := blue_formula blue in
  let red := gate_channel red in
  let green := gate_channel green in
  let blue := gate_channel blue in
  uor (uor (ushl red 16) (ushl green 8)) blue.

(** ** The frame loop *)

(** Outcome of running a piece of the element.  [OutOfBounds] is a read or
    write outside a buffer, which the C code does not check for;
    [OutOfFuel] is the loop model running out of steps. *)
Inductive exec (A : Type) : Type :=
| Done (a : A)
| OutOfBounds
| OutOfFuel.

Arguments Done {A} a.
Arguments OutOfBounds {A}.
Arguments OutOfFuel {A}.

(** The variables of [transform] while it runs: the two buffers, the two
    moving pointers (as indices from the start of their buffer) and the
    counter [x]. *)
Record loop_state : Type := LoopState {
  src_buf : list Z;
  dest_buf : list Z;
  src : nat;
  dest : nat;
  x : Z
}.

(** One pass through the body of the [for] loop, followed by [x++]. *)
Definition loop_body (st : loop_state) : exec loop_state :=
  match src_buf st !! src st with
  | None => OutOfBounds
  | Some inp =>
      let out := transform_pixel inp in
      if decide (dest st < length (dest_buf st))%nat then
        Done {| src_buf := src_buf st;
                dest_buf := <[dest st := out]> (dest_buf st);
                src := S (src st);
                dest := S (dest st);
                x := iadd (x st) 1 |}
      else OutOfBounds
  end.

(** [for (...; x < video_area; x++) body] from the current state. *)
Fixpoint loop (fuel : nat) (video_area : Z) (st : loop_state)
  : exec loop_state :=
  if x st <? video_area then
    match fuel with
    | O => OutOfFuel
    | S fuel' =>
        match loop_body st with
        | Done st' => loop fuel' video_area st'
        | OutOfBounds => OutOfBounds
        | OutOfFuel => OutOfFuel
        end
    end
  else Done st.

(** Transform processes each frame (lines 290-319).  The loop is given
    [video_area] steps, one per value of [x]. *)
Definition transform (src dest : list Z) (video_area : Z) : exec loop_state :=
  loop (Z.to_nat video_area) video_area
       {| src_buf := src; dest_buf := dest; src := 0; dest := 0; x := 0 |}.

(** ** The element *)

(** Modelled from the spec: [struct _Gstexclusion] is declared in
    gstexclusion.h, which is not part of the sources at hand.  The record
    has the fields that gstexclusion.c reads and writes, less the two pads:
    the verbosity flag and the negotiated width and height (both [gint]). *)
Record Gstexclusion : Type := {
  silent : bool;
  width : Z;
  height : Z
}.

(** Modelled from the spec: the instance memory handed to
    [gst_exclusion_init].  The GObject type system allocates it zero-filled
    and no line of gstexclusion.c assigns [width] or [height] before the
    first negotiation. *)
Definition instance_alloc : Gstexclusion :=
  {| silent := false; width := 0; height := 0 |}.

(** Lines 166-185, less the creation of the pads: only [silent] is set. *)
Definition gst_exclusion_init (filter : Gstexclusion) : Gstexclusion :=
  {| silent := false; width := width filter; height := height filter |}.

(** Lines 187-201, case [PROP_SILENT]. *)
Definition gst_exclusion_set_property (filter : Gstexclusion) (value : bool)
  : Gstexclusion :=
  {| silent := value; width := width filter; height := height filter |}.

(** The first structure of a caps: the two fields the element looks up,
    each present as an integer or not. *)
Record GstStructure : Type := {
  field_width : option Z;
  field_height : option Z
}.

(** [gst_structure_get_int]: stores the field when it is there and leaves
    the destination alone otherwise. *)
Definition gst_structure_get_int (field : option Z) (old : Z) : Z :=
  match field with
  | Some v => v
  | None => old
  end.

(** The values of [GstFlowReturn] in GStreamer 0.10 (gstpad.h). *)
Inductive GstFlowReturn : Type :=
| GST_FLOW_RESEND
| GST_FLOW_OK
| GST_FLOW_NOT_LINKED
| GST_FLOW_WRONG_STATE
| GST_FLOW_UNEXPECTED
| GST_FLOW_NOT_NEGOTIATED
| GST_FLOW_ERROR
| GST_FLOW_NOT_SUPPORTED.

(** The error codes are the negative ones. *)
Definition flow_is_error (r : GstFlowReturn) : bool :=
  match r with
  | GST_FLOW_RESEND | GST_FLOW_OK => false
  | _ => true
  end.

(** What one call of the chain function leaves behind: the contents of the
    input buffer after the call, the buffer handed to [gst_pad_push] and
    the value returned. *)
Record chain_outcome : Type := {
  in_data : list Z;
  pushed : list Z;
  flow : GstFlowReturn
}.

(** [gst_buffer_copy]: a new buffer with the same data. *)
Definition gst_buffer_copy (buf : list Z) : list Z := buf.

Section Element.

(** The peer of the source pad: what pushing a buffer downstream and
    proposing a format to it return. *)
Variable gst_pad_push : list Z -> GstFlowReturn.
Variable gst_pad_set_caps : GstStructure -> bool.

(** Handle the link with other elements (lines 222-239). *)
Definition gst_exclusion_set_caps (filter : Gstexclusion)
  (structure : GstStructure) : Gstexclusion * bool :=
  let filter :=
    {| silent := silent filter;
       width := gst_structure_get_int (field_width structure) (width filter);
       height := gst_structure_get_int (field_height structure)
                   (height filter) |} in
  (filter, gst_pad_set_caps structure).

(** Actual processing (lines 242-260). *)
Definition gst_exclusion_chain (filter : Gstexclusion) (in_buf : list Z)
  : exec chain_outcome :=
  let out_buf := gst_buffer_copy in_buf in
  let width := width filter in
  let height := height filter in
  let video_size := imul width height in
  match transform in_buf out_buf video_size with
  | Done st =>
      Done {| in_data := src_buf st;
              pushed := dest_buf st;
              flow := gst_pad_push (dest_buf st) |}
  | OutOfBounds => OutOfBounds
  | OutOfFuel => OutOfFuel
  end.

End Element.

(** ** The design document's reference formulas

    Exact integer arithmetic, division truncating toward zero ([Z.quot]),
    written after the document and compared with the code below. *)

Definition spec_red (red green : Z) : Z :=
  175 - (((175 - red) * (175 - red)) ÷ 175 + (green * red) ÷ 175).

Definition spec_green (green : Z) : Z :=
  175 - (((175 - green) * (175 - green)) ÷ 175 + (green * green) ÷ 175).

Definition spec_blue (blue : Z) : Z :=
  175 - (((175 - blue) * (175 - blue)) ÷ 175 + (blue * blue) ÷ 175).

(** Values below 0 clamp to 0, above 255 clamp to 255. *)
Definition spec_clamp (v : Z) : Z :=
  if v <? 0 then 0 else if 255 <? v then 255 else v.

(** [(red<<16)|(green<<8)|blue] on unbounded integers. *)
Definition spec_pack (red green blue : Z) : Z :=
  Z.lor (Z.lor (Z.shiftl red 16) (Z.shiftl green 8)) blue.

(** A 32-bit word from its four bytes, the unused one on top. *)
Definition pixel (unused red green blue : Z) : Z :=
  Z.lor (Z.shiftl unused 24) (spec_pack red green blue).

Definition is_byte (c : Z) : Prop := 0 <= c <= 255.

(** A downstream peer that accepts every buffer. *)
Definition accept_all (buf : list Z) : GstFlowReturn := GST_FLOW_OK.

(** ** The effect of the loop, as a function

    Used to state what [transform] leaves in its buffers. *)

(** The destination buffer once [n] words have been processed: the first
    [n] words of the source transformed, the rest of the destination as it
    was. *)
Definition processed (src dest : list Z) (n : nat) : list Z :=
  (transform_pixel <$> take n src) ++ drop n dest.

(** The state at the head of the loop after [i] iterations. *)
Definition at_iteration (s d : list Z) (i : nat) : loop_state :=
  {| src_buf := s; dest_buf := processed s d i;
     src := i; dest := i; x := Z.of_nat i |}.

(** ** The element's property (lines 88-92 and 187-217) *)

(** [enum { PROP_0, PROP_SILENT };] *)
Definition PROP_0 : Z := 0.
Definition PROP_SILENT : Z := 1.

(** [gst_exclusion_set_property] with its [switch] on [prop_id]: the new
    state of the element, and whether the [default] branch ran
    [G_OBJECT_WARN_INVALID_PROPERTY_ID]. *)
Definition set_property_switch (filter : Gstexclusion) (prop_id : Z)
  (value : bool) : Gstexclusion * bool :=
  if prop_id =? PROP_SILENT
  then (gst_exclusion_set_property filter value, false)
  else (filter, true).

(** [gst_exclusion_get_property] (lines 203-217): the contents of the
    [GValue] after the call, given its contents before, and whether the
    [default] branch ran the warning. *)
Definition gst_exclusion_get_property (filter : Gstexclusion) (prop_id : Z)
  (value : bool) : bool * bool :=
  if prop_id =? PROP_SILENT then (silent filter, false) else (value, true).

(** ** Checking a property on all 256 channel values *)

Definition all_bytes (P : Z -> bool) : bool :=
  forallb P (Z.of_nat <$> seq 0 256).

(** ** Sanity checks on concrete inputs *)

Example transform_pixel_factor : transform_pixel 0x00AFAFAF = 0.
Proof. reflexivity. Qed.

Example transform_pixel_black : transform_pixel 0 = 0.
Proof. reflexivity. Qed.

Example transform_pixel_mid : transform_pixel 0x12645032 = 0x00625848.
Proof. vm_compute. reflexivity. Qed.

Example gate_int_examples :
  gate_int (-5) 0 255 = 0 /\ gate_int 300 0 255 = 255 /\ gate_int 10 0 255 = 10.
Proof. repeat split. Qed.

Example transform_two_pixels :
  transform [0x12645032; 0x00FFFFFF] [0x12645032; 0x00FFFFFF] 2
  = Done {| src_buf := [0x12645032; 0x00FFFFFF];
            dest_buf := [0x00625848; 0];
            src := 2; dest := 2; x := 2 |}.
Proof. vm_compute. reflexivity. Qed.

Example transform_too_long :
  transform [0x12645032] [0x12645032] 2 = OutOfBounds.
Proof. vm_compute. reflexivity. Qed.

(** A negotiation of 2x1 followed by a two-pixel frame. *)
Example negotiated_chain :
  let filter :=
    fst (gst_exclusion_set_caps (fun _ => true)
           (gst_exclusion_init instance_alloc)
           {| field_width := Some 2; field_height := Some 1 |}) in
  width filter = 2 /\ height filter = 1
  /\ gst_exclusion_chain accept_all filter [0x12645032; 0xFFFFFFFF]
     = Done {| in_data := [0x12645032; 0xFFFFFFFF];
               pushed := [0x00625848; 0];
               flow := GST_FLOW_OK |}.
Proof. vm_compute. repeat split. Qed.

(** A format without integer [width] and [height] leaves the element's
    dimensions as they were, and the answer is the peer's. *)
Example set_caps_without_fields :
  gst_exclusion_set_caps (fun _ => true)
    {| silent := true; width := 4; height := 3 |}
    {| field_width := None; field_height := None |}
  = ({| silent := true; width := 4; height := 3 |}, true).
Proof. reflexivity. Qed.

(** ** Bytes, shifts and masks *)

Section Bytes.

Lemma land_0xff_byte (z : Z) : is_byte (Z.land z 0xff).
Proof.
  unfold is_byte. change (Z.land z 0xff) with (Z.land z (Z.ones 8)).
  rewrite Z.land_ones by lia.
  pose proof (Z.mod_pos_bound z (2 ^ 8) ltac:(lia)). lia.
Qed.

Lemma land_byte (c : Z) : is_byte c -> Z.land c 0xff = c.
Proof.
  intros Hc. change 0xff with (Z.ones 8).
  rewrite Z.land_ones by lia. apply Z.mod_small. unfold is_byte in Hc. lia.
Qed.

Lemma shiftr_byte (c n : Z) : is_byte c -> 8 <= n -> Z.shiftr c n = 0.
Proof.
  intros Hc Hn. rewrite Z.shiftr_div_pow2 by lia.
  apply Z.div_small. unfold is_byte in Hc.
  assert (2 ^ 8 <= 2 ^ n) by (apply Z.pow_le_mono_r; lia). lia.
Qed.

Lemma land_shiftl_0xff (c n : Z) : 8 <= n -> Z.land (Z.shiftl c n) 0xff = 0.
Proof.
  intros Hn. change 0xff with (Z.ones 8).
  rewrite Z.land_ones by lia. rewrite Z.shiftl_mul_pow2 by lia.
  replace n with ((n - 8) + 8) by lia.
  rewrite Z.pow_add_r by lia. rewrite Z.mul_assoc. apply Z.mod_mul. lia.
Qed.

Lemma ushl_byte (c n : Z) :
  is_byte c -> 0 <= n <= 24 -> ushl c n = Z.shiftl c n.
Proof.
  intros Hc Hn. unfold ushl, modulus. apply Z.mod_small.
  rewrite Z.shiftl_mul_pow2 by lia. unfold is_byte in Hc.
  assert (0 < 2 ^ n) by (apply Z.pow_pos_nonneg; lia).
  assert (2 ^ n <= 2 ^ 24) by (apply Z.pow_le_mono_r; lia).
  change (2 ^ 24) with 16777216 in *. change (2 ^ 32) with 4294967296.
  generalize dependent (2 ^ n). intros p Hp Hp'. nia.
Qed.

Variables unused red green blue : Z.
Hypothesis Hred : is_byte red.
Hypothesis Hgreen : is_byte green.
Hypothesis Hblue : is_byte blue.

Lemma red_of_pixel : red_of (pixel unused red green blue) = red.
Proof.
  unfold red_of, pixel, spec_pack, uand, ushr.
  rewrite !Z.shiftr_lor.
  rewrite (Z.shiftr_shiftl_l unused) by lia.
  rewrite (Z.shiftr_shiftl_l red) by lia.
  rewrite (Z.shiftr_shiftl_r green) by lia.
  rewrite (shiftr_byte green), (shiftr_byte blue) by (trivial; lia).
  change (16 - 16) with 0. rewrite Z.shiftl_0_r, !Z.lor_0_r.
  rewrite Z.land_lor_distr_l, land_shiftl_0xff by lia.
  rewrite Z.lor_0_l. now apply land_byte.
Qed.

Lemma green_of_pixel : green_of (pixel unused red green blue) = green.
Proof.
  unfold green_of, pixel, spec_pack, uand, ushr.
  rewrite !Z.shiftr_lor.
  rewrite (Z.shiftr_shiftl_l unused) by lia.
  rewrite (Z.shiftr_shiftl_l red) by lia.
  rewrite (Z.shiftr_shiftl_l green) by lia.
  rewrite (shiftr_byte blue) by (trivial; lia).
  change (8 - 8) with 0. rewrite Z.shiftl_0_r, Z.lor_0_r.
  rewrite !Z.land_lor_distr_l, !land_shiftl_0xff by lia.
  rewrite !Z.lor_0_l. now apply land_byte.
Qed.

Lemma blue_of_pixel : blue_of (pixel unused red green blue) = blue.
Proof.
  unfold blue_of, pixel, spec_pack, uand.
  rewrite !Z.land_lor_distr_l, !land_shiftl_0xff by lia.
  rewrite !Z.lor_0_l. now apply land_byte.
Qed.

Lemma spec_pack_top_byte : Z.shiftr (spec_pack red green blue) 24 = 0.
Proof.
  unfold spec_pack. rewrite !Z.shiftr_lor.
  rewrite (Z.shiftr_shiftl_r red), (Z.shiftr_shiftl_r green) by lia.
  now rewrite !shiftr_byte by (trivial; lia).
Qed.

Lemma upack_bytes :
  uor (uor (ushl red 16) (ushl green 8)) blue = spec_pack red green blue.
Proof.
  unfold uor, spec_pack. now rewrite !ushl_byte by (trivial; lia).
Qed.

End Bytes.

Lemma pixel_0 (red green blue : Z) :
  pixel 0 red green blue = spec_pack red green blue.
Proof. unfold pixel. now rewrite Z.shiftl_0_l, Z.lor_0_l. Qed.

(** ** Wrap-around arithmetic on the values the filter meets *)

Lemma to_gint_in_range (z : Z) : G_MININT <= z <= G_MAXINT -> to_gint z = z.
Proof.
  unfold to_gint, G_MININT, G_MAXINT, modulus.
  change (2 ^ 31) with 2147483648. change (2 ^ 32) with 4294967296.
  intros Hz. destruct (Z.neg_nonneg_cases z) as [Hneg | Hpos].
  - assert (Hm : z mod 4294967296 = z + 4294967296).
    { symmetry. apply (Z.mod_unique _ _ (-1)); lia. }
    rewrite Hm. destruct (Z.ltb_spec (z + 4294967296) 2147483648); lia.
  - rewrite Z.mod_small by lia.
    destruct (Z.ltb_spec z 2147483648); lia.
Qed.

Lemma to_gint_mod (z : Z) : to_gint (z mod modulus) = to_gint z.
Proof. unfold to_gint. now rewrite Z.mod_mod by (unfold modulus; lia). Qed.

Lemma to_guint32_small (z : Z) : 0 <= z < modulus -> to_guint32 z = z.
Proof. apply Z.mod_small. Qed.

Lemma square_bounds (c : Z) :
  is_byte c -> 0 <= (175 - c) * (175 - c) <= 175 * 175.
Proof.
  unfold is_byte. intros Hc.
  assert (Ht : -175 <= 175 - c <= 175) by lia.
  generalize dependent (175 - c). intros t Ht. nia.
Qed.

Lemma product_bounds (a b : Z) :
  is_byte a -> is_byte b -> 0 <= a * b <= 255 * 255.
Proof. unfold is_byte. intros Ha Hb. nia. Qed.

(** The square of a wrapped difference is the square of the difference. *)
Lemma umul_usub_square (c : Z) :
  is_byte c ->
  umul (usub 175 c) (usub 175 c) = (175 - c) * (175 - c).
Proof.
  intros Hc. pose proof (square_bounds c Hc).
  unfold umul, usub, modulus.
  rewrite <- Z.mul_mod by lia. apply Z.mod_small.
  change (2 ^ 32) with 4294967296. lia.
Qed.

Lemma umul_bytes (a b : Z) : is_byte a -> is_byte b -> umul a b = a * b.
Proof.
  intros Ha Hb. pose proof (product_bounds a b Ha Hb).
  unfold umul, modulus. apply Z.mod_small.
  change (2 ^ 32) with 4294967296. lia.
Qed.

Lemma quot_175_bounds (n hi : Z) :
  0 <= n <= 175 * hi + 174 -> 0 <= n ÷ 175 <= hi.
Proof.
  intros Hn. rewrite Z.quot_div_nonneg by lia.
  split; [apply Z.div_pos; lia |].
  apply Z.lt_succ_r, Z.div_lt_upper_bound; lia.
Qed.

(** Before gating, the 32 bits of the red channel read as a [gint] are the
    exact value of the reference formula. *)
Lemma red_formula_exact (red green : Z) :
  is_byte red -> is_byte green ->
  to_gint (red_formula red green) = spec_red red green.
Proof.
  intros Hr Hg. unfold red_formula, spec_red, udiv, factor.
  change (to_guint32 175) with 175.
  rewrite umul_usub_square, umul_bytes by assumption.
  pose proof (square_bounds red Hr) as Hsq.
  pose proof (product_bounds green red Hg Hr) as Hpr.
  pose proof (quot_175_bounds _ 175 ltac:(split; [apply Hsq | lia])).
  pose proof (quot_175_bounds _ 371 ltac:(split; [apply Hpr | lia])).
  unfold uadd, usub. rewrite (Z.mod_small (_ + _)) by (unfold modulus; lia).
  rewrite to_gint_mod. apply to_gint_in_range.
  unfold G_MININT, G_MAXINT. lia.
Qed.

Lemma green_formula_red (green : Z) :
  green_formula green = red_formula green green.
Proof. reflexivity. Qed.

Lemma blue_formula_red (blue : Z) : blue_formula blue = red_formula blue blue.
Proof. reflexivity. Qed.

Lemma green_formula_exact (green : Z) :
  is_byte green -> to_gint (green_formula green) = spec_green green.
Proof. intros Hg. rewrite green_formula_red. now apply red_formula_exact. Qed.

Lemma blue_formula_exact (blue : Z) :
  is_byte blue -> to_gint (blue_formula blue) = spec_blue blue.
Proof. intros Hb. rewrite blue_formula_red. now apply red_formula_exact. Qed.

(** The reference value never exceeds the factor. *)
Lemma spec_red_le_factor (red green : Z) :
  is_byte red -> is_byte green -> -371 <= spec_red red green <= 175.
Proof.
  intros Hr Hg. unfold spec_red.
  pose proof (square_bounds red Hr) as Hsq.
  pose proof (product_bounds green red Hg Hr) as Hpr.
  pose proof (quot_175_bounds _ 175 ltac:(split; [apply Hsq | lia])).
  pose proof (quot_175_bounds _ 371 ltac:(split; [apply Hpr | lia])). lia.
Qed.

Lemma gate_int_clamp (v : Z) : gate_int v 0 255 = spec_clamp v.
Proof.
  unfold gate_int, spec_clamp.
  destruct (Z.ltb_spec v 0); [reflexivity |].
  destruct (Z.gtb_spec v 255), (Z.ltb_spec 255 v); lia.
Qed.

Lemma spec_clamp_byte (v : Z) : is_byte (spec_clamp v).
Proof.
  unfold spec_clamp, is_byte.
  destruct (Z.ltb_spec v 0); [lia |]. destruct (Z.ltb_spec 255 v); lia.
Qed.

Lemma gate_channel_clamp (c : Z) : gate_channel c = spec_clamp (to_gint c).
Proof.
  unfold gate_channel. rewrite gate_int_clamp.
  apply to_guint32_small. pose proof (spec_clamp_byte (to_gint c)) as H.
  unfold is_byte in H. unfold modulus. lia.
Qed.

(** The loop body on any word, in terms of the reference formulas. *)
Lemma transform_pixel_spec (inp : Z) :
  transform_pixel inp
  = spec_pack (spec_clamp (spec_red (red_of inp) (green_of inp)))
              (spec_clamp (spec_green (green_of inp)))
              (spec_clamp (spec_blue (blue_of inp))).
Proof.
  unfold transform_pixel.
  pose proof (land_0xff_byte (ushr inp 16)) as Hr.
  pose proof (land_0xff_byte (ushr inp 8)) as Hg.
  pose proof (land_0xff_byte inp) as Hb.
  rewrite !gate_channel_clamp.
  rewrite red_formula_exact, green_formula_exact, blue_formula_exact
    by assumption.
  apply upack_bytes; apply spec_clamp_byte.
Qed.

(** ** The frame loop as a map over the first [video_area] words *)

Lemma processed_0 (s d : list Z) : processed s d 0 = d.
Proof. reflexivity. Qed.

Lemma length_processed (s d : list Z) (n : nat) :
  (n <= length s)%nat -> (n <= length d)%nat ->
  length (processed s d n) = length d.
Proof.
  intros Hs Hd. unfold processed.
  rewrite length_app, length_fmap, length_take, length_drop. lia.
Qed.

Lemma processed_S (s d : list Z) (n : nat) (inp : Z) :
  s !! n = Some inp -> (n < length d)%nat ->
  <[n := transform_pixel inp]> (processed s d n) = processed s d (S n).
Proof.
  intros Hin Hd. unfold processed.
  destruct (lookup_lt_is_Some_2 d n Hd) as [old Hold].
  pose proof (lookup_lt_Some _ _ _ Hin) as Hs.
  rewrite (take_S_r s n inp Hin), fmap_app, <- app_assoc. simpl.
  rewrite (drop_S d old n Hold).
  rewrite insert_app_r_alt by (rewrite length_fmap, length_take; lia).
  rewrite length_fmap, length_take.
  replace (n - n `min` length s)%nat with 0%nat by lia. reflexivity.
Qed.

Lemma lookup_processed_lt (s d : list Z) (n i : nat) :
  (i < n)%nat -> (n <= length s)%nat ->
  processed s d n !! i = transform_pixel <$> s !! i.
Proof.
  intros Hi Hn. unfold processed.
  rewrite lookup_app_l by (rewrite length_fmap, length_take; lia).
  rewrite list_lookup_fmap. now rewrite lookup_take_lt by lia.
Qed.

Lemma lookup_processed_ge (s d : list Z) (n i : nat) :
  (n <= i)%nat -> (n <= length s)%nat ->
  processed s d n !! i = d !! i.
Proof.
  intros Hi Hn. unfold processed.
  rewrite lookup_app_r by (rewrite length_fmap, length_take; lia).
  rewrite length_fmap, length_take, lookup_drop. f_equal. lia.
Qed.

Lemma processed_all (s d : list Z) :
  length d = length s -> processed s d (length s) = transform_pixel <$> s.
Proof.
  intros Hlen. unfold processed.
  rewrite take_ge, drop_ge by lia. apply app_nil_r.
Qed.

Lemma to_gint_range (z : Z) : G_MININT <= to_gint z <= G_MAXINT.
Proof.
  unfold to_gint, G_MININT, G_MAXINT, modulus.
  change (2 ^ 31) with 2147483648. change (2 ^ 32) with 4294967296.
  pose proof (Z.mod_pos_bound z 4294967296 ltac:(lia)).
  destruct (Z.ltb_spec (z mod 4294967296) 2147483648); lia.
Qed.

Section Loop.

Variables (s d : list Z) (video_area : Z).
Let n : nat := Z.to_nat video_area.
Hypothesis Hmax : video_area <= G_MAXINT.
Hypothesis Hsrc : (n <= length s)%nat.
Hypothesis Hdest : (n <= length d)%nat.

Lemma loop_body_at (i : nat) :
  (i < n)%nat -> loop_body (at_iteration s d i) = Done (at_iteration s d (S i)).
Proof.
  intros Hi. unfold loop_body, at_iteration. simpl.
  destruct (lookup_lt_is_Some_2 s i ltac:(lia)) as [inp Hin].
  rewrite Hin.
  rewrite length_processed by lia.
  destruct (decide (i < length d)%nat) as [Hlt | Hge]; [| lia].
  rewrite (processed_S s d i inp Hin Hlt). f_equal. f_equal.
  unfold iadd. rewrite to_gint_in_range; [lia |].
  unfold G_MININT, G_MAXINT in *. subst n. lia.
Qed.

Lemma loop_from (fuel i : nat) :
  (i <= n)%nat -> (n - i <= fuel)%nat ->
  loop fuel video_area (at_iteration s d i) = Done (at_iteration s d n).
Proof.
  revert i. induction fuel as [| fuel IH]; intros i Hi Hfuel.
  - assert (i = n) by lia. subst i. simpl.
    destruct (Z.ltb_spec (Z.of_nat n) video_area); [subst n; lia | easy].
  - simpl. destruct (Z.ltb_spec (Z.of_nat i) video_area) as [Hlt | Hge].
    + assert (Hin : (i < n)%nat) by (subst n; lia).
      rewrite (loop_body_at i Hin). apply IH; lia.
    + assert (i = n) by (subst n; lia). now subst i.
Qed.

Lemma transform_run : transform s d video_area = Done (at_iteration s d n).
Proof. apply (loop_from n 0); lia. Qed.

End Loop.

(** The steps given to the loop by [transform] always suffice. *)
Lemma loop_fuel_suffices (fuel : nat) (video_area : Z) (st : loop_state) :
  video_area <= G_MAXINT -> G_MININT <= x st ->
  (Z.to_nat (video_area - x st) <= fuel)%nat ->
  loop fuel video_area st <> OutOfFuel.
Proof.
  intros Hmax. revert st.
  induction fuel as [| fuel IH]; intros st Hmin Hfuel; simpl;
    destruct (Z.ltb_spec (x st) video_area) as [Hlt | Hge];
    try discriminate; [lia |].
  unfold loop_body. destruct (src_buf st !! src st); [| discriminate].
  destruct (decide _); [| discriminate].
  assert (Hx : iadd (x st) 1 = x st + 1).
  { apply to_gint_in_range. unfold G_MININT, G_MAXINT in *. lia. }
  apply IH; simpl; rewrite Hx; lia.
Qed.

Lemma transform_never_out_of_fuel (s d : list Z) (video_area : Z) :
  video_area <= G_MAXINT -> transform s d video_area <> OutOfFuel.
Proof.
  intros Hmax. apply loop_fuel_suffices; simpl;
    [assumption | unfold G_MININT; lia | lia].
Qed.

(** Past the end of the source buffer the loop reads out of bounds. *)
Lemma loop_out_of_bounds (s d : list Z) (video_area : Z) :
  video_area <= G_MAXINT -> (length s <= length d)%nat ->
  (length s < Z.to_nat video_area)%nat ->
  transform s d video_area = OutOfBounds.
Proof.
  intros Hmax Hlen Hlong. unfold transform.
  pose (m := length s).
  assert (Hgen : forall fuel i, (i <= m)%nat -> (m - i < fuel)%nat ->
            loop fuel video_area (at_iteration s d i) = OutOfBounds).
  { induction fuel as [| fuel IH]; intros i Hi Hfuel; [lia |].
    simpl. destruct (Z.ltb_spec (Z.of_nat i) video_area) as [Hlt | Hge];
      [| lia].
    destruct (decide (i = m)) as [-> | Hne].
    - unfold loop_body. simpl. now rewrite lookup_ge_None_2.
    - rewrite (loop_body_at s d (Z.of_nat m)); rewrite ?Nat2Z.id; try lia.
      apply IH; lia. }
  apply (Hgen _ 0%nat); lia.
Qed.

(** ** The pixel transform against the design document *)

(** C1.  For every pixel with channels in [0,255] and any fourth byte,
    [transform_pixel] yields the three reference formulas (red mixed with
    green, green and blue on themselves, truncating division), each clamped
    to [0,255] and repacked as [(red'<<16)|(green'<<8)|blue'] under a zero
    top byte; read back, each output channel is the clamped formula of its
    own input channel. *)
Theorem transform_pixel_formula (unused red green blue : Z) :
  is_byte red -> is_byte green -> is_byte blue ->
  let out := transform_pixel (pixel unused red green blue) in
  let red' := spec_clamp (175 - (((175 - red) * (175 - red)) ÷ 175
                                 + (green * red) ÷ 175)) in
  let green' := spec_clamp (175 - (((175 - green) * (175 - green)) ÷ 175
                                   + (green * green) ÷ 175)) in
  let blue' := spec_clamp (175 - (((175 - blue) * (175 - blue)) ÷ 175
                                  + (blue * blue) ÷ 175)) in
  out = Z.lor (Z.lor (Z.shiftl red' 16) (Z.shiftl green' 8)) blue'
  /\ Z.shiftr out 24 = 0
  /\ red_of out = red' /\ green_of out = green' /\ blue_of out = blue'.
Proof.
  intros Hr Hg Hb out red' green' blue'.
  assert (Hout : out = spec_pack red' green' blue').
  { subst out. rewrite transform_pixel_spec.
    now rewrite red_of_pixel, green_of_pixel, blue_of_pixel. }
  pose proof (spec_clamp_byte (spec_red red green)) as Hr'.
  pose proof (spec_clamp_byte (spec_green green)) as Hg'.
  pose proof (spec_clamp_byte (spec_blue blue)) as Hb'.
  fold red' in Hr'. fold green' in Hg'. fold blue' in Hb'.
  rewrite Hout. split; [reflexivity |].
  split; [now apply spec_pack_top_byte |].
  rewrite <- pixel_0.
  now rewrite red_of_pixel, green_of_pixel, blue_of_pixel.
Qed.

Lemma transform_pixel_formula_witness :
  let out := transform_pixel (pixel 0x12 100 80 50) in
  out = Z.lor (Z.lor (Z.shiftl 98 16) (Z.shiftl 88 8)) 72
  /\ Z.shiftr out 24 = 0
  /\ red_of out = 98 /\ green_of out = 88 /\ blue_of out = 72.
Proof.
  apply (transform_pixel_formula 0x12 100 80 50); unfold is_byte; lia.
Defined.

(** The red output moves with the green input; the green output does not
    move with red or blue. *)
Example red_mixes_with_green :
  red_of (transform_pixel (pixel 0 100 0 0)) = 143
  /\ red_of (transform_pixel (pixel 0 100 80 0)) = 98
  /\ green_of (transform_pixel (pixel 0 100 80 0)) = 88
  /\ green_of (transform_pixel (pixel 0 0 80 200)) = 88.
Proof. vm_compute. repeat split. Qed.

(** C2.  On channels in [0,255] the code's computation - subtraction,
    multiplication and division on 32-bit unsigned operands, the result
    read as a signed 32-bit value and gated - gives the channel that exact
    integer arithmetic with truncating division and a clamp to [0,255]
    gives; already before the gate the signed reading is the exact value. *)
Theorem unsigned_computation_matches_exact (red green blue : Z) :
  is_byte red -> is_byte green -> is_byte blue ->
  (to_gint (red_formula red green) = spec_red red green
   /\ gate_channel (red_formula red green) = spec_clamp (spec_red red green))
  /\ (to_gint (green_formula green) = spec_green green
      /\ gate_channel (green_formula green) = spec_clamp (spec_green green))
  /\ (to_gint (blue_formula blue) = spec_blue blue
      /\ gate_channel (blue_formula blue) = spec_clamp (spec_blue blue)).
Proof.
  intros Hr Hg Hb. rewrite !gate_channel_clamp.
  rewrite red_formula_exact, green_formula_exact, blue_formula_exact
    by assumption.
  repeat split.
Qed.

Lemma unsigned_computation_matches_exact_witness :
  (to_gint (red_formula 255 200) = spec_red 255 200
   /\ gate_channel (red_formula 255 200) = spec_clamp (spec_red 255 200))
  /\ (to_gint (green_formula 200) = spec_green 200
      /\ gate_channel (green_formula 200) = spec_clamp (spec_green 200))
  /\ (to_gint (blue_formula 30) = spec_blue 30
      /\ gate_channel (blue_formula 30) = spec_clamp (spec_blue 30)).
Proof.
  apply (unsigned_computation_matches_exact 255 200 30); unfold is_byte; lia.
Defined.

(** The wrap-around is real: for a bright pixel the unsigned value of the
    formula is just below 2^32 and only its signed reading is negative. *)
Example red_formula_wraps :
  red_formula 255 255 = 4294967064 /\ to_gint (red_formula 255 255) = -232.
Proof. vm_compute. split; reflexivity. Qed.

(** C4.  With red = green = blue = 255 the two quotients are 36 and 371,
    every channel is 175 - (36 + 371) = -232 before the gate and 0 after
    it, and the output word is 0 (black), whatever the fourth byte. *)
Theorem white_pixel_gives_black (unused : Z) :
  udiv (umul (usub (to_guint32 factor) 255) (usub (to_guint32 factor) 255))
       (to_guint32 factor) = 36
  /\ udiv (umul 255 255) (to_guint32 factor) = 371
  /\ to_gint (red_formula 255 255) = -232
  /\ to_gint (green_formula 255) = -232
  /\ to_gint (blue_formula 255) = -232
  /\ gate_channel (red_formula 255 255) = 0
  /\ gate_channel (green_formula 255) = 0
  /\ gate_channel (blue_formula 255) = 0
  /\ transform_pixel (pixel unused 255 255 255) = 0.
Proof.
  repeat (split; [vm_compute; reflexivity |]).
  rewrite transform_pixel_spec.
  rewrite red_of_pixel, green_of_pixel, blue_of_pixel by (unfold is_byte; lia).
  vm_compute. reflexivity.
Qed.

(** C9.  For channels in [0,255] each formula is at most 175 before the
    gate, so [gate_int] never returns through its [max] branch: the gated
    value is [Z.max 0] of the formula and every output channel of
    [transform_pixel] lies in [0,175]. *)
Theorem channels_at_most_factor (unused red green blue : Z) :
  is_byte red -> is_byte green -> is_byte blue ->
  let out := transform_pixel (pixel unused red green blue) in
  (to_gint (red_formula red green) <= 175
   /\ to_gint (green_formula green) <= 175
   /\ to_gint (blue_formula blue) <= 175)
  /\ (gate_int (to_gint (red_formula red green)) 0 255
      = Z.max 0 (to_gint (red_formula red green))
      /\ gate_int (to_gint (green_formula green)) 0 255
         = Z.max 0 (to_gint (green_formula green))
      /\ gate_int (to_gint (blue_formula blue)) 0 255
         = Z.max 0 (to_gint (blue_formula blue)))
  /\ (0 <= red_of out <= 175
      /\ 0 <= green_of out <= 175
      /\ 0 <= blue_of out <= 175).
Proof.
  intros Hr Hg Hb out.
  pose proof (spec_red_le_factor red green Hr Hg) as Br.
  pose proof (spec_red_le_factor green green Hg Hg) as Bg.
  pose proof (spec_red_le_factor blue blue Hb Hb) as Bb.
  assert (Hgate : forall v, v <= 175 ->
            gate_int v 0 255 = Z.max 0 v /\ 0 <= spec_clamp v <= 175).
  { intros v Hv. rewrite gate_int_clamp. unfold spec_clamp.
    destruct (Z.ltb_spec v 0); [lia |]. destruct (Z.ltb_spec 255 v); lia. }
  assert (Hout : out = pixel 0 (spec_clamp (spec_red red green))
                               (spec_clamp (spec_red green green))
                               (spec_clamp (spec_red blue blue))).
  { subst out. rewrite transform_pixel_spec.
    rewrite red_of_pixel, green_of_pixel, blue_of_pixel by assumption.
    symmetry. apply pixel_0. }
  rewrite Hout.
  rewrite red_of_pixel, green_of_pixel, blue_of_pixel by apply spec_clamp_byte.
  change (green_formula green) with (red_formula green green).
  change (blue_formula blue) with (red_formula blue blue).
  rewrite !red_formula_exact by assumption.
  destruct (Hgate _ (proj2 Br)), (Hgate _ (proj2 Bg)), (Hgate _ (proj2 Bb)).
  repeat split; tauto || lia.
Qed.

Lemma channels_at_most_factor_witness :
  let out := transform_pixel (pixel 0 87 0 88) in
  (to_gint (red_formula 87 0) <= 175
   /\ to_gint (green_formula 0) <= 175
   /\ to_gint (blue_formula 88) <= 175)
  /\ (gate_int (to_gint (red_formula 87 0)) 0 255
      = Z.max 0 (to_gint (red_formula 87 0))
      /\ gate_int (to_gint (green_formula 0)) 0 255
         = Z.max 0 (to_gint (green_formula 0))
      /\ gate_int (to_gint (blue_formula 88)) 0 255
         = Z.max 0 (to_gint (blue_formula 88)))
  /\ (0 <= red_of out <= 175
      /\ 0 <= green_of out <= 175
      /\ 0 <= blue_of out <= 175).
Proof.
  apply (channels_at_most_factor 0 87 0 88); unfold is_byte; lia.
Defined.

(** The bound is met: with red = 175 and green = 0 both quotients are 0
    and the red channel comes out as 175. *)
Example factor_is_reached :
  red_of (transform_pixel (pixel 0 175 0 0)) = 175.
Proof. vm_compute. reflexivity. Qed.

(** ** Frames through [transform] and the chain function *)

Lemma imul_le_max (a b : Z) : imul a b <= G_MAXINT.
Proof. apply to_gint_range. Qed.

(** With a pixel count that fits the buffer the chain function runs to its
    end: the input is as it was, and the buffer pushed is the copy with its
    first [width * height] words transformed. *)
Lemma chain_run (push : list Z -> GstFlowReturn) (filter : Gstexclusion)
  (in_buf : list Z) :
  let n := Z.to_nat (imul (width filter) (height filter)) in
  (n <= length in_buf)%nat ->
  gst_exclusion_chain push filter in_buf
  = Done {| in_data := in_buf;
            pushed := processed in_buf in_buf n;
            flow := push (processed in_buf in_buf n) |}.
Proof.
  intros n Hn. unfold gst_exclusion_chain, gst_buffer_copy.
  now rewrite transform_run by (apply imul_le_max || exact Hn).
Qed.

Lemma transform_pixel_bytes (inp : Z) :
  exists r g b, is_byte r /\ is_byte g /\ is_byte b
    /\ transform_pixel inp = spec_pack r g b
    /\ red_of (transform_pixel inp) = r
    /\ green_of (transform_pixel inp) = g
    /\ blue_of (transform_pixel inp) = b.
Proof.
  rewrite transform_pixel_spec.
  set (r := spec_clamp _). set (g := spec_clamp _). set (b := spec_clamp _).
  assert (is_byte r /\ is_byte g /\ is_byte b) as (Hr & Hg & Hb)
    by (repeat split; apply spec_clamp_byte).
  exists r, g, b. rewrite <- pixel_0.
  now rewrite red_of_pixel, green_of_pixel, blue_of_pixel.
Qed.

(** C3.  For a frame that holds [width * height] pixels or more, the chain
    function produces an output frame, every pixel of which has its three
    channels in [0,255]; each pixel the loop wrote is moreover exactly the
    packing of three values in [0,255], which are its channels. *)
Theorem output_channels_bounded (push : list Z -> GstFlowReturn)
  (filter : Gstexclusion) (in_buf : list Z) :
  let n := Z.to_nat (imul (width filter) (height filter)) in
  (n <= length in_buf)%nat ->
  exists out,
    gst_exclusion_chain push filter in_buf = Done out
    /\ forall (i : nat) (px : Z),
         pushed out !! i = Some px ->
         (is_byte (red_of px) /\ is_byte (green_of px) /\ is_byte (blue_of px))
         /\ ((i < n)%nat ->
             exists r g b,
               is_byte r /\ is_byte g /\ is_byte b
               /\ px = spec_pack r g b
               /\ red_of px = r /\ green_of px = g /\ blue_of px = b).
Proof.
  intros n Hn. eexists. split; [now apply chain_run |].
  simpl. fold n. intros i px Hpx. split.
  - repeat split; apply land_0xff_byte.
  - intros Hi. rewrite lookup_processed_lt in Hpx by assumption.
    destruct (in_buf !! i) as [inp |]; [| discriminate].
    injection Hpx as <-. apply transform_pixel_bytes.
Qed.

Lemma output_channels_bounded_witness :
  exists out,
    gst_exclusion_chain accept_all {| silent := false; width := 2; height := 1 |}
      [0x12645032; 0xFFFFFFFF] = Done out
    /\ forall (i : nat) (px : Z),
         pushed out !! i = Some px ->
         (is_byte (red_of px) /\ is_byte (green_of px) /\ is_byte (blue_of px))
         /\ ((i < 2)%nat ->
             exists r g b,
               is_byte r /\ is_byte g /\ is_byte b
               /\ px = spec_pack r g b
               /\ red_of px = r /\ green_of px = g /\ blue_of px = b).
Proof.
  apply (output_channels_bounded accept_all
           {| silent := false; width := 2; height := 1 |}
           [0x12645032; 0xFFFFFFFF]).
  vm_compute. lia.
Defined.

(** C5.  Two invocations of the chain function on the same buffer contents
    with the same width and height both complete, push output frames that
    are equal word for word and leave equal inputs, whatever the rest of
    the element's state and whoever is downstream; with the same peer the
    whole outcomes are equal. *)
Theorem chain_deterministic (push1 push2 : list Z -> GstFlowReturn)
  (filter1 filter2 : Gstexclusion) (in_buf1 in_buf2 : list Z) :
  width filter1 = width filter2 ->
  height filter1 = height filter2 ->
  in_buf1 = in_buf2 ->
  (Z.to_nat (imul (width filter1) (height filter1)) <= length in_buf1)%nat ->
  exists out1 out2,
    gst_exclusion_chain push1 filter1 in_buf1 = Done out1
    /\ gst_exclusion_chain push2 filter2 in_buf2 = Done out2
    /\ pushed out1 = pushed out2
    /\ in_data out1 = in_data out2
    /\ ((forall buf, push1 buf = push2 buf) -> out1 = out2).
Proof.
  intros Hw Hh <- Hn. do 2 eexists.
  split; [now apply chain_run |].
  split; [apply chain_run; now rewrite <- Hw, <- Hh |].
  simpl. rewrite <- Hw, <- Hh. repeat split.
  intros Hpush. now rewrite Hpush.
Qed.

Lemma chain_deterministic_witness :
  exists out1 out2,
    gst_exclusion_chain accept_all
      {| silent := false; width := 1; height := 2 |} [0x12645032; 0x00AFAFAF]
    = Done out1
    /\ gst_exclusion_chain (fun _ => GST_FLOW_NOT_LINKED)
         {| silent := true; width := 1; height := 2 |} [0x12645032; 0x00AFAFAF]
       = Done out2
    /\ pushed out1 = pushed out2
    /\ in_data out1 = in_data out2
    /\ ((forall buf, accept_all buf = GST_FLOW_NOT_LINKED) -> out1 = out2).
Proof.
  apply (chain_deterministic accept_all (fun _ => GST_FLOW_NOT_LINKED)
           {| silent := false; width := 1; height := 2 |}
           {| silent := true; width := 1; height := 2 |}
           [0x12645032; 0x00AFAFAF] [0x12645032; 0x00AFAFAF]);
    first [reflexivity | vm_compute; lia].
Defined.

(** C6.  On buffers that hold [video_area] words, [transform] completes and
    output word [i] is [transform_pixel] of input word [i] for every [i]
    below [video_area]: the destination is the pointwise map over the first
    [video_area] words (over the whole frame when the count is the frame's
    length).  Word [i] of the result is the same for any other frame with
    the same word at [i], and handing the frame over in the opposite order
    gives the same pixels in the opposite order. *)
Theorem transform_pointwise (s d : list Z) (video_area : Z) :
  let n := Z.to_nat video_area in
  video_area <= G_MAXINT ->
  (n <= length s)%nat ->
  (n <= length d)%nat ->
  exists st,
    transform s d video_area = Done st
    /\ dest_buf st = (transform_pixel <$> take n s) ++ drop n d
    /\ (forall i : nat,
          (i < n)%nat -> dest_buf st !! i = transform_pixel <$> s !! i)
    /\ (length s = n -> length d = n -> dest_buf st = transform_pixel <$> s)
    /\ (forall s' d' : list Z,
          (n <= length s')%nat -> (n <= length d')%nat ->
          exists st',
            transform s' d' video_area = Done st'
            /\ forall i : nat,
                 (i < n)%nat -> s' !! i = s !! i ->
                 dest_buf st' !! i = dest_buf st !! i)
    /\ (length s = n -> length d = n ->
        exists st',
          transform (reverse s) (reverse d) video_area = Done st'
          /\ dest_buf st' = reverse (dest_buf st)).
Proof.
  intros n Hmax Hs Hd. eexists.
  split; [now apply transform_run |]. simpl. fold n.
  split; [reflexivity |].
  split; [intros i Hi; now apply lookup_processed_lt |].
  split; [intros <- Hlen; now apply processed_all |].
  split.
  - intros s' d' Hs' Hd'. eexists.
    split; [now apply transform_run |]. simpl. fold n.
    intros i Hi Heq. rewrite !lookup_processed_lt by assumption.
    now rewrite Heq.
  - intros Hls Hld. eexists.
    split; [apply transform_run; rewrite ?length_reverse; assumption |].
    simpl. fold n. rewrite <- Hls at 1 2.
    rewrite <- (length_reverse s) at 1.
    rewrite !processed_all by (rewrite ?length_reverse; lia).
    apply fmap_reverse.
Qed.

Lemma transform_pointwise_witness :
  exists st,
    transform [0x12645032; 0x00FFFFFF; 0x00AFAFAF]
              [0x12645032; 0x00FFFFFF; 0x00AFAFAF] 3 = Done st
    /\ dest_buf st
       = (transform_pixel <$> take 3 [0x12645032; 0x00FFFFFF; 0x00AFAFAF])
         ++ drop 3 [0x12645032; 0x00FFFFFF; 0x00AFAFAF]
    /\ (forall i : nat,
          (i < 3)%nat ->
          dest_buf st !! i
          = transform_pixel <$> [0x12645032; 0x00FFFFFF; 0x00AFAFAF] !! i)
    /\ (length [0x12645032; 0x00FFFFFF; 0x00AFAFAF] = 3%nat ->
        length [0x12645032; 0x00FFFFFF; 0x00AFAFAF] = 3%nat ->
        dest_buf st
        = transform_pixel <$> [0x12645032; 0x00FFFFFF; 0x00AFAFAF])
    /\ (forall s' d' : list Z,
          (3 <= length s')%nat -> (3 <= length d')%nat ->
          exists st',
            transform s' d' 3 = Done st'
            /\ forall i : nat,
                 (i < 3)%nat ->
                 s' !! i = [0x12645032; 0x00FFFFFF; 0x00AFAFAF] !! i ->
                 dest_buf st' !! i = dest_buf st !! i)
    /\ (length [0x12645032; 0x00FFFFFF; 0x00AFAFAF] = 3%nat ->
        length [0x12645032; 0x00FFFFFF; 0x00AFAFAF] = 3%nat ->
        exists st',
          transform (reverse [0x12645032; 0x00FFFFFF; 0x00AFAFAF])
                    (reverse [0x12645032; 0x00FFFFFF; 0x00AFAFAF]) 3
          = Done st'
          /\ dest_buf st' = reverse (dest_buf st)).
Proof.
  apply (transform_pointwise [0x12645032; 0x00FFFFFF; 0x00AFAFAF]
           [0x12645032; 0x00FFFFFF; 0x00AFAFAF] 3);
    first [solve [unfold G_MAXINT; lia] | solve [vm_compute; lia]].
Defined.

(** C7.  For a frame that holds [width * height] pixels or more, the chain
    function completes with the input buffer's contents as they were, and
    hands [gst_pad_push] a buffer of the same number of pixels, whose
    answer it returns. *)
Theorem chain_leaves_input (push : list Z -> GstFlowReturn)
  (filter : Gstexclusion) (in_buf : list Z) :
  (Z.to_nat (imul (width filter) (height filter)) <= length in_buf)%nat ->
  exists out,
    gst_exclusion_chain push filter in_buf = Done out
    /\ in_data out = in_buf
    /\ length (pushed out) = length in_buf
    /\ flow out = push (pushed out).
Proof.
  intros Hn. eexists. split; [now apply chain_run |]. simpl.
  split; [reflexivity |]. split; [| reflexivity].
  now apply length_processed.
Qed.

Lemma chain_leaves_input_witness :
  exists out,
    gst_exclusion_chain accept_all
      {| silent := false; width := 2; height := 2 |}
      [0x12645032; 0x00FFFFFF; 0x00AFAFAF; 0x00000000] = Done out
    /\ in_data out = [0x12645032; 0x00FFFFFF; 0x00AFAFAF; 0x00000000]
    /\ length (pushed out)
       = length [0x12645032; 0x00FFFFFF; 0x00AFAFAF; 0x00000000]
    /\ flow out = accept_all (pushed out).
Proof.
  apply (chain_leaves_input accept_all
           {| silent := false; width := 2; height := 2 |}
           [0x12645032; 0x00FFFFFF; 0x00AFAFAF; 0x00000000]).
  vm_compute. lia.
Defined.

(** At the level of [transform]: the source buffer is only read. *)
Lemma transform_reads_source (s d : list Z) (video_area : Z) (st : loop_state) :
  transform s d video_area = Done st -> src_buf st = s.
Proof.
  unfold transform.
  assert (Hgen : forall fuel st0 st1,
            loop fuel video_area st0 = Done st1 -> src_buf st1 = src_buf st0).
  { induction fuel as [| fuel IH]; intros st0 st1; simpl;
      destruct (x st0 <? video_area); try discriminate;
      try (intros [= <-]; reflexivity).
    unfold loop_body. destruct (src_buf st0 !! src st0); [| discriminate].
    destruct (decide _); [| discriminate].
    intros Hrun. now rewrite (IH _ _ Hrun). }
  intros Hrun. now rewrite (Hgen _ _ _ Hrun).
Qed.

(** ** Before negotiation, and empty pixel counts *)

(** C8, as the code has it.  Called on a freshly initialised element, with
    no negotiation before, the chain function reports no error of its own:
    the loop runs over 0 * 0 = 0 pixels, the unmodified copy of the input
    is pushed and the result is whatever [gst_pad_push] answers.  Setting
    the [silent] property in between changes nothing. *)
Theorem unconfigured_chain_pushes_copy (push : list Z -> GstFlowReturn)
  (value : bool) (in_buf : list Z) :
  gst_exclusion_chain push (gst_exclusion_init instance_alloc) in_buf
  = Done {| in_data := in_buf; pushed := in_buf; flow := push in_buf |}
  /\ gst_exclusion_chain push
       (gst_exclusion_set_property (gst_exclusion_init instance_alloc) value)
       in_buf
     = Done {| in_data := in_buf; pushed := in_buf; flow := push in_buf |}.
Proof. split; reflexivity. Qed.

(** C8 as stated fails: a one-pixel frame sent to an element that was never
    negotiated is pushed downstream and the call returns [GST_FLOW_OK]. *)
Lemma unconfigured_chain_reports_no_error :
  let result :=
    gst_exclusion_chain accept_all (gst_exclusion_init instance_alloc)
      [0x00FFFFFF] in
  result = Done {| in_data := [0x00FFFFFF];
                   pushed := [0x00FFFFFF];
                   flow := GST_FLOW_OK |}
  /\ ~ (exists out, result = Done out /\ flow_is_error (flow out) = true).
Proof.
  split; [reflexivity |].
  intros (out & [= <-] & Herr). discriminate Herr.
Qed.

(** C10.  When [width * height] is zero or negative, [transform] leaves the
    loop at once - counter and both pointers still at 0, both buffers
    untouched - and the chain function pushes the unmodified copy of the
    input and returns what [gst_pad_push] answers, with no error of its
    own. *)
Theorem empty_area_copies_input (push : list Z -> GstFlowReturn)
  (filter : Gstexclusion) (in_buf dest0 : list Z) :
  imul (width filter) (height filter) <= 0 ->
  transform in_buf dest0 (imul (width filter) (height filter))
  = Done {| src_buf := in_buf; dest_buf := dest0;
            src := 0; dest := 0; x := 0 |}
  /\ gst_exclusion_chain push filter in_buf
     = Done {| in_data := in_buf; pushed := in_buf; flow := push in_buf |}.
Proof.
  intros Hle.
  assert (Hrun : forall d,
            transform in_buf d (imul (width filter) (height filter))
            = Done {| src_buf := in_buf; dest_buf := d;
                      src := 0; dest := 0; x := 0 |}).
  { intros d. unfold transform.
    replace (Z.to_nat _) with 0%nat by lia. simpl.
    destruct (Z.ltb_spec 0 (imul (width filter) (height filter)));
      [lia | reflexivity]. }
  split; [apply Hrun |].
  unfold gst_exclusion_chain, gst_buffer_copy. now rewrite Hrun.
Qed.

Lemma empty_area_copies_input_witness :
  transform [0x12645032; 0x00FFFFFF] [7; 8] (imul (-3) 5)
  = Done {| src_buf := [0x12645032; 0x00FFFFFF]; dest_buf := [7; 8];
            src := 0; dest := 0; x := 0 |}
  /\ gst_exclusion_chain accept_all
       {| silent := false; width := -3; height := 5 |}
       [0x12645032; 0x00FFFFFF]
     = Done {| in_data := [0x12645032; 0x00FFFFFF];
               pushed := [0x12645032; 0x00FFFFFF];
               flow := accept_all [0x12645032; 0x00FFFFFF] |}.
Proof.
  apply (empty_area_copies_input accept_all
           {| silent := false; width := -3; height := 5 |}
           [0x12645032; 0x00FFFFFF] [7; 8]).
  change (-15 <= 0). lia.
Defined.

(** ** Further properties of the code *)

(** *** [gate_int] *)

(** With [min <= max] the result of [gate_int] lies in [[min, max]], and it
    is the value itself exactly when the value lies there. *)
Theorem gate_int_range (value min max : Z) :
  min <= max ->
  min <= gate_int value min max <= max
  /\ (gate_int value min max = value <-> min <= value <= max).
Proof.
  intros Hmm. unfold gate_int.
  destruct (Z.ltb_spec value min); [lia |].
  destruct (Z.gtb_spec value max); lia.
Qed.

Lemma gate_int_range_witness :
  0 <= gate_int 300 0 255 <= 255
  /\ (gate_int 300 0 255 = 300 <-> 0 <= 300 <= 255).
Proof. apply (gate_int_range 300 0 255). lia. Defined.

(** With [min <= max], [gate_int] is monotone in its value and gating a
    gated value changes nothing. *)
Theorem gate_int_monotone_idempotent (v v' min max : Z) :
  min <= max ->
  v <= v' ->
  gate_int v min max <= gate_int v' min max
  /\ gate_int (gate_int v min max) min max = gate_int v min max.
Proof.
  intros Hmm Hv. unfold gate_int.
  destruct (Z.ltb_spec v min), (Z.ltb_spec v' min);
    destruct (Z.gtb_spec v max), (Z.gtb_spec v' max);
    repeat match goal with
           | |- context [?a <? ?b] => destruct (Z.ltb_spec a b)
           | |- context [?a >? ?b] => destruct (Z.gtb_spec a b)
           end; lia.
Qed.

Lemma gate_int_monotone_idempotent_witness :
  gate_int (-5) 0 255 <= gate_int 300 0 255
  /\ gate_int (gate_int (-5) 0 255) 0 255 = gate_int (-5) 0 255.
Proof. apply (gate_int_monotone_idempotent (-5) 300 0 255); lia. Defined.

(** With the bounds the wrong way round the result can leave both. *)
Example gate_int_crossed_bounds : gate_int 0 5 3 = 5 /\ gate_int 4 5 3 = 5.
Proof. split; reflexivity. Qed.

(** A 32-bit channel value goes through the gate unchanged up to 255, comes
    out as 255 from 256 up to 2^31 - 1, and as 0 from 2^31 on, where its
    reading as a [gint] is negative. *)
Theorem gate_channel_cases (c : Z) :
  0 <= c < modulus ->
  gate_channel c
  = if c <? 256 then c else if c <? 2 ^ 31 then 255 else 0.
Proof.
  intros Hc. rewrite gate_channel_clamp. unfold spec_clamp, to_gint.
  rewrite Z.mod_small by assumption. unfold modulus in *.
  change (2 ^ 31) with 2147483648 in *. change (2 ^ 32) with 4294967296 in *.
  destruct (Z.ltb_spec c 256), (Z.ltb_spec c 2147483648);
    repeat match goal with
           | |- context [?a <? ?b] => destruct (Z.ltb_spec a b)
           end; lia.
Qed.

Lemma gate_channel_cases_witness :
  gate_channel 4294967064
  = if 4294967064 <? 256 then 4294967064
    else if 4294967064 <? 2 ^ 31 then 255 else 0.
Proof. apply (gate_channel_cases 4294967064). unfold modulus. lia. Defined.

(** *** The pixel transform *)

Lemma all_bytes_spec (P : Z -> bool) :
  all_bytes P = true -> forall c, is_byte c -> P c = true.
Proof.
  unfold all_bytes, is_byte. intros Hall c Hc.
  rewrite forallb_forall in Hall. apply Hall.
  rewrite <- (Z2Nat.id c) by lia. apply in_map, in_seq. lia.
Qed.

(** The output channels of a pixel given by its bytes. *)
Lemma channels_of_transform (unused red green blue : Z) :
  is_byte red -> is_byte green -> is_byte blue ->
  let out := transform_pixel (pixel unused red green blue) in
  red_of out = spec_clamp (spec_red red green)
  /\ green_of out = spec_clamp (spec_green green)
  /\ blue_of out = spec_clamp (spec_blue blue).
Proof.
  intros Hr Hg Hb out. subst out. rewrite transform_pixel_spec.
  rewrite !red_of_pixel, !green_of_pixel, !blue_of_pixel by assumption.
  rewrite <- pixel_0.
  now rewrite red_of_pixel, green_of_pixel, blue_of_pixel
    by apply spec_clamp_byte.
Qed.

Lemma spec_pack_bounds (r g b : Z) :
  is_byte r -> is_byte g -> is_byte b -> 0 <= spec_pack r g b < 2 ^ 24.
Proof.
  intros Hr Hg Hb.
  assert (Hnn : 0 <= spec_pack r g b).
  { unfold spec_pack, is_byte in *.
    rewrite !Z.lor_nonneg, !Z.shiftl_nonneg. lia. }
  split; [assumption |].
  pose proof (spec_pack_top_byte r g b Hr Hg Hb) as Htop.
  rewrite Z.shiftr_div_pow2 in Htop by lia.
  apply Z.div_small_iff in Htop; lia.
Qed.

(** On every word, whatever its size, the result of [transform_pixel] fits
    24 bits and is the result on the low 24 bits of the word: the fourth
    byte of the input never reaches the output. *)
Theorem transform_pixel_low24 (inp : Z) :
  0 <= transform_pixel inp < 2 ^ 24
  /\ transform_pixel inp = transform_pixel (Z.land inp 0xFFFFFF).
Proof.
  split.
  - rewrite transform_pixel_spec. apply spec_pack_bounds; apply spec_clamp_byte.
  - rewrite (transform_pixel_spec inp), (transform_pixel_spec (Z.land _ _)).
    assert (Hr : red_of (Z.land inp 0xFFFFFF) = red_of inp).
    { unfold red_of, uand, ushr. rewrite Z.shiftr_land, <- Z.land_assoc.
      reflexivity. }
    assert (Hg : green_of (Z.land inp 0xFFFFFF) = green_of inp).
    { unfold green_of, uand, ushr. rewrite Z.shiftr_land, <- Z.land_assoc.
      reflexivity. }
    assert (Hb : blue_of (Z.land inp 0xFFFFFF) = blue_of inp).
    { unfold blue_of, uand. rewrite <- Z.land_assoc. reflexivity. }
    now rewrite Hr, Hg, Hb.
Qed.

(** A grey pixel (three equal channels) comes out grey: on equal channels
    the red formula, which mixes in green, is the formula of the other
    two. *)
Theorem grey_pixel_stays_grey (unused c : Z) :
  is_byte c ->
  let out := transform_pixel (pixel unused c c c) in
  red_of out = green_of out /\ green_of out = blue_of out.
Proof.
  intros Hc out.
  destruct (channels_of_transform unused c c c Hc Hc Hc) as (Hr & Hg & Hb).
  fold out in Hr, Hg, Hb. rewrite Hr, Hg, Hb. split; reflexivity.
Qed.

Lemma grey_pixel_stays_grey_witness :
  let out := transform_pixel (pixel 0 80 80 80) in
  red_of out = green_of out /\ green_of out = blue_of out.
Proof. apply (grey_pixel_stays_grey 0 80). unfold is_byte. lia. Defined.

Lemma spec_clamp_monotone (v v' : Z) :
  v <= v' -> spec_clamp v <= spec_clamp v'.
Proof.
  intros Hv. unfold spec_clamp.
  destruct (Z.ltb_spec v 0), (Z.ltb_spec v' 0);
    destruct (Z.ltb_spec 255 v), (Z.ltb_spec 255 v'); lia.
Qed.

(** The red output never grows when the green input grows, the other
    inputs being what they may: a brighter green can only darken red. *)
Theorem red_output_antitone_in_green
  (unused unused' red green green' blue blue' : Z) :
  is_byte red -> is_byte green -> is_byte green' ->
  is_byte blue -> is_byte blue' ->
  green <= green' ->
  red_of (transform_pixel (pixel unused' red green' blue'))
  <= red_of (transform_pixel (pixel unused red green blue)).
Proof.
  intros Hr Hg Hg' Hb Hb' Hle.
  destruct (channels_of_transform unused red green blue Hr Hg Hb) as (-> & _).
  destruct (channels_of_transform unused' red green' blue' Hr Hg' Hb')
    as (-> & _).
  apply spec_clamp_monotone. unfold spec_red, is_byte in *.
  assert (green * red ÷ 175 <= green' * red ÷ 175)
    by (apply Z.quot_le_mono; nia).
  lia.
Qed.

Lemma red_output_antitone_in_green_witness :
  red_of (transform_pixel (pixel 9 100 80 7))
  <= red_of (transform_pixel (pixel 0 100 0 0)).
Proof.
  apply (red_output_antitone_in_green 0 9 100 0 80 0 7); unfold is_byte; lia.
Defined.

(** The green output is 0 exactly when the green input is 0 or at least
    175, and the same holds of blue: every channel value from the factor
    up is turned to black, and between 1 and 174 none is. *)
Theorem green_blue_zero_iff (unused red green blue : Z) :
  is_byte red -> is_byte green -> is_byte blue ->
  let out := transform_pixel (pixel unused red green blue) in
  (green_of out = 0 <-> green = 0 \/ 175 <= green)
  /\ (blue_of out = 0 <-> blue = 0 \/ 175 <= blue).
Proof.
  intros Hr Hg Hb out.
  destruct (channels_of_transform unused red green blue Hr Hg Hb)
    as (_ & Hgo & Hbo).
  fold out in Hgo, Hbo. rewrite Hgo, Hbo.
  assert (Hall : forall c, is_byte c ->
            (spec_clamp (spec_green c) = 0 <-> c = 0 \/ 175 <= c)).
  { intros c Hc.
    pose proof (all_bytes_spec
      (fun c => Bool.eqb (spec_clamp (spec_green c) =? 0)
                         ((c =? 0) || (175 <=? c)))
      ltac:(vm_compute; reflexivity) c Hc) as Hchk.
    simpl in Hchk. apply Bool.eqb_prop in Hchk.
    rewrite <- Z.eqb_eq, Hchk, orb_true_iff, Z.eqb_eq, Z.leb_le.
    reflexivity. }
  split; [now apply Hall | apply (Hall blue Hb)].
Qed.

Lemma green_blue_zero_iff_witness :
  let out := transform_pixel (pixel 0 10 200 90) in
  (green_of out = 0 <-> 200 = 0 \/ 175 <= 200)
  /\ (blue_of out = 0 <-> 90 = 0 \/ 175 <= 90).
Proof. apply (green_blue_zero_iff 0 10 200 90); unfold is_byte; lia. Defined.

(** The green and blue outputs never exceed 88, about half the factor. *)
Theorem green_blue_at_most_88 (unused red green blue : Z) :
  is_byte red -> is_byte green -> is_byte blue ->
  let out := transform_pixel (pixel unused red green blue) in
  0 <= green_of out <= 88 /\ 0 <= blue_of out <= 88.
Proof.
  intros Hr Hg Hb out.
  destruct (channels_of_transform unused red green blue Hr Hg Hb)
    as (_ & Hgo & Hbo).
  fold out in Hgo, Hbo. rewrite Hgo, Hbo.
  assert (Hall : forall c, is_byte c -> 0 <= spec_clamp (spec_green c) <= 88).
  { intros c Hc.
    pose proof (all_bytes_spec (fun c => spec_clamp (spec_green c) <=? 88)
                  ltac:(vm_compute; reflexivity) c Hc) as Hchk.
    simpl in Hchk. apply Z.leb_le in Hchk.
    pose proof (spec_clamp_byte (spec_green c)) as Hbyte.
    unfold is_byte in Hbyte. lia. }
  split; [now apply Hall | apply (Hall blue Hb)].
Qed.

Lemma green_blue_at_most_88_witness :
  let out := transform_pixel (pixel 0 10 80 87) in
  0 <= green_of out <= 88 /\ 0 <= blue_of out <= 88.
Proof. apply (green_blue_at_most_88 0 10 80 87); unfold is_byte; lia. Defined.

(** The bound 88 is met. *)
Example green_reaches_88 : green_of (transform_pixel (pixel 0 0 80 0)) = 88.
Proof. vm_compute. reflexivity. Qed.

(** Below the factor the green and blue responses are symmetric: a channel
    value and its distance to 175 give the same output. *)
Theorem green_blue_symmetric (unused red green blue : Z) :
  is_byte red -> 0 <= green <= 175 -> 0 <= blue <= 175 ->
  let out := transform_pixel (pixel unused red green blue) in
  let out' := transform_pixel (pixel unused red (175 - green) (175 - blue)) in
  green_of out' = green_of out /\ blue_of out' = blue_of out.
Proof.
  intros Hr Hg Hb out out'.
  destruct (channels_of_transform unused red green blue Hr
              ltac:(unfold is_byte; lia) ltac:(unfold is_byte; lia))
    as (_ & Hgo & Hbo).
  destruct (channels_of_transform unused red (175 - green) (175 - blue) Hr
              ltac:(unfold is_byte; lia) ltac:(unfold is_byte; lia))
    as (_ & Hgo' & Hbo').
  fold out in Hgo, Hbo. fold out' in Hgo', Hbo'.
  rewrite Hgo, Hbo, Hgo', Hbo'. unfold spec_green, spec_blue.
  replace (175 - (175 - green)) with green by lia.
  replace (175 - (175 - blue)) with blue by lia.
  split; f_equal; lia.
Qed.

Lemma green_blue_symmetric_witness :
  let out := transform_pixel (pixel 0 10 30 100) in
  let out' := transform_pixel (pixel 0 10 (175 - 30) (175 - 100)) in
  green_of out' = green_of out /\ blue_of out' = blue_of out.
Proof.
  apply (green_blue_symmetric 0 10 30 100); unfold is_byte; lia.
Defined.

(** *** Frames: bounds, the unprocessed tail, tiling *)

(** As soon as the pixel count exceeds the shorter of the two buffers, the
    loop leaves it. *)
Lemma transform_out_of_bounds (s d : list Z) (video_area : Z) :
  video_area <= G_MAXINT ->
  (length s `min` length d < Z.to_nat video_area)%nat ->
  transform s d video_area = OutOfBounds.
Proof.
  intros Hmax Hlong. unfold transform.
  pose (m := (length s `min` length d)%nat).
  assert (Hgen : forall fuel i, (i <= m)%nat -> (m - i < fuel)%nat ->
            loop fuel video_area (at_iteration s d i) = OutOfBounds).
  { induction fuel as [| fuel IH]; intros i Hi Hfuel; [lia |].
    simpl. destruct (Z.ltb_spec (Z.of_nat i) video_area) as [Hlt | Hge];
      [| lia].
    destruct (decide (i = m)) as [-> | Hne].
    - unfold loop_body. simpl.
      destruct (s !! m) as [inp |] eqn:Hin; [| reflexivity].
      apply lookup_lt_Some in Hin.
      rewrite length_processed by lia.
      destruct (decide (m < length d)%nat); [lia | reflexivity].
    - rewrite (loop_body_at s d (Z.of_nat m)); rewrite ?Nat2Z.id; try lia.
      apply IH; lia. }
  apply (Hgen _ 0%nat); lia.
Qed.

(** [transform] with a pixel count within the [gint] range completes
    exactly when both buffers hold that many words; it then stops with
    both pointers and the counter at the count; otherwise it reads or
    writes past the end of the shorter buffer. *)
Theorem transform_completes_iff (s d : list Z) (video_area : Z) :
  video_area <= G_MAXINT ->
  transform s d video_area
  = if decide (Z.to_nat video_area <= length s `min` length d)%nat
    then Done {| src_buf := s;
                 dest_buf := processed s d (Z.to_nat video_area);
                 src := Z.to_nat video_area;
                 dest := Z.to_nat video_area;
                 x := Z.of_nat (Z.to_nat video_area) |}
    else OutOfBounds.
Proof.
  intros Hmax. destruct (decide _) as [Hin | Hout].
  - apply transform_run; lia.
  - apply transform_out_of_bounds; [assumption | lia].
Qed.

Lemma transform_completes_iff_witness :
  let s : list Z := [0x12645032; 0x00FFFFFF] in
  let d : list Z := [5] in
  transform s d 2
  = if decide (Z.to_nat 2 <= length s `min` length d)%nat
    then Done {| src_buf := s;
                 dest_buf := processed s d (Z.to_nat 2);
                 src := Z.to_nat 2;
                 dest := Z.to_nat 2;
                 x := Z.of_nat (Z.to_nat 2) |}
    else OutOfBounds.
Proof.
  apply (transform_completes_iff [0x12645032; 0x00FFFFFF] [5] 2).
  unfold G_MAXINT. lia.
Defined.


(** When the buffer holds more than [width * height] words, the words from
    index [width * height] on are pushed as they came in: the loop never
    writes there. *)
Theorem chain_copies_tail (push : list Z -> GstFlowReturn)
  (filter : Gstexclusion) (in_buf : list Z) :
  let n := Z.to_nat (imul (width filter) (height filter)) in
  (n <= length in_buf)%nat ->
  exists out,
    gst_exclusion_chain push filter in_buf = Done out
    /\ drop n (pushed out) = drop n in_buf
    /\ forall i : nat, (n <= i)%nat -> pushed out !! i = in_buf !! i.
Proof.
  intros n Hn. eexists. split; [now apply chain_run |]. simpl. fold n.
  split.
  - unfold processed. rewrite drop_app_length'; [reflexivity |].
    rewrite length_fmap, length_take. lia.
  - intros i Hi. now apply lookup_processed_ge.
Qed.

Lemma chain_copies_tail_witness :
  exists out,
    gst_exclusion_chain accept_all
      {| silent := false; width := 1; height := 1 |}
      [0x12645032; 0x00FFFFFF; 0x00AFAFAF] = Done out
    /\ drop 1 (pushed out) = drop 1 [0x12645032; 0x00FFFFFF; 0x00AFAFAF]
    /\ forall i : nat,
         (1 <= i)%nat ->
         pushed out !! i = [0x12645032; 0x00FFFFFF; 0x00AFAFAF] !! i.
Proof.
  apply (chain_copies_tail accept_all
           {| silent := false; width := 1; height := 1 |}
           [0x12645032; 0x00FFFFFF; 0x00AFAFAF]).
  vm_compute. lia.
Defined.

(** Processing two frames laid end to end is processing each on its own
    and laying the results end to end: a frame can be cut into tiles. *)
Theorem transform_app (s1 d1 s2 d2 : list Z) :
  length d1 = length s1 ->
  length d2 = length s2 ->
  Z.of_nat (length (s1 ++ s2)) <= G_MAXINT ->
  exists st st1 st2,
    transform (s1 ++ s2) (d1 ++ d2) (Z.of_nat (length (s1 ++ s2))) = Done st
    /\ transform s1 d1 (Z.of_nat (length s1)) = Done st1
    /\ transform s2 d2 (Z.of_nat (length s2)) = Done st2
    /\ dest_buf st = dest_buf st1 ++ dest_buf st2.
Proof.
  intros H1 H2 Hmax. rewrite length_app in Hmax. do 3 eexists.
  split; [apply transform_run; rewrite ?Nat2Z.id, ?length_app; lia |].
  split; [apply transform_run; rewrite ?Nat2Z.id; lia |].
  split; [apply transform_run; rewrite ?Nat2Z.id; lia |].
  simpl. rewrite !Nat2Z.id.
  rewrite !processed_all by (rewrite ?length_app; lia).
  apply fmap_app.
Qed.

Lemma transform_app_witness :
  exists st st1 st2,
    transform ([0x12645032] ++ [0x00FFFFFF; 0x00AFAFAF])
              ([1] ++ [2; 3])
              (Z.of_nat (length ([0x12645032] ++ [0x00FFFFFF; 0x00AFAFAF])))
    = Done st
    /\ transform [0x12645032] [1] (Z.of_nat (length [0x12645032])) = Done st1
    /\ transform [0x00FFFFFF; 0x00AFAFAF] [2; 3]
         (Z.of_nat (length [0x00FFFFFF; 0x00AFAFAF])) = Done st2
    /\ dest_buf st = dest_buf st1 ++ dest_buf st2.
Proof.
  apply (transform_app [0x12645032] [1] [0x00FFFFFF; 0x00AFAFAF] [2; 3]);
    first [reflexivity | unfold G_MAXINT; simpl; lia].
Defined.

Lemma transform_pixel_word (inp : Z) : 0 <= transform_pixel inp < modulus.
Proof.
  rewrite transform_pixel_spec.
  pose proof (spec_pack_bounds _ _ _
                (spec_clamp_byte (spec_red (red_of inp) (green_of inp)))
                (spec_clamp_byte (spec_green (green_of inp)))
                (spec_clamp_byte (spec_blue (blue_of inp)))) as Hb.
  unfold modulus. change (2 ^ 24) with 16777216 in Hb.
  change (2 ^ 32) with 4294967296. lia.
Qed.

(** If every word of the input is a 32-bit word, so is every word of the
    frame pushed: the words written fit 24 bits and the others are
    copies. *)
Theorem chain_keeps_words_32bit (push : list Z -> GstFlowReturn)
  (filter : Gstexclusion) (in_buf : list Z) :
  (Z.to_nat (imul (width filter) (height filter)) <= length in_buf)%nat ->
  Forall (fun w => 0 <= w < modulus) in_buf ->
  exists out,
    gst_exclusion_chain push filter in_buf = Done out
    /\ Forall (fun w => 0 <= w < modulus) (pushed out).
Proof.
  intros Hn Hwords. eexists. split; [now apply chain_run |]. simpl.
  unfold processed. apply Forall_app. split.
  - apply Forall_fmap, Forall_forall. intros w _. apply transform_pixel_word.
  - now apply Forall_drop.
Qed.

Lemma chain_keeps_words_32bit_witness :
  exists out,
    gst_exclusion_chain accept_all
      {| silent := false; width := 1; height := 1 |}
      [0xFF645032; 0xFFFFFFFF] = Done out
    /\ Forall (fun w => 0 <= w < modulus) (pushed out).
Proof.
  apply (chain_keeps_words_32bit accept_all
           {| silent := false; width := 1; height := 1 |}
           [0xFF645032; 0xFFFFFFFF]).
  - vm_compute. lia.
  - repeat constructor; unfold modulus; lia.
Defined.

(** *** Negotiation and the [silent] property *)

(** Negotiating twice is negotiating once with the fields of the second
    structure laid over those of the first: a field the later structure
    lacks keeps the value the earlier one gave.  The answer is each time
    the peer's alone, and negotiating the same structure again changes
    nothing. *)
Theorem set_caps_twice (peer1 peer2 : GstStructure -> bool)
  (filter : Gstexclusion) (s1 s2 : GstStructure) :
  let merged :=
    {| field_width := match field_width s2 with
                      | Some w => Some w
                      | None => field_width s1
                      end;
       field_height := match field_height s2 with
                       | Some h => Some h
                       | None => field_height s1
                       end |} in
  let once := gst_exclusion_set_caps peer1 filter s1 in
  let twice := gst_exclusion_set_caps peer2 (fst once) s2 in
  fst twice = fst (gst_exclusion_set_caps peer2 filter merged)
  /\ snd once = peer1 s1 /\ snd twice = peer2 s2
  /\ fst (gst_exclusion_set_caps peer2 (fst once) s1) = fst once.
Proof.
  destruct s1 as [[w1 |] [h1 |]], s2 as [[w2 |] [h2 |]], filter;
    repeat split.
Qed.

(** After a negotiation that gives a non-negative width and height whose
    product is the number of words of the frame, the chain function pushes
    the frame with every pixel transformed, leaves its input alone and
    returns the peer's answer. *)
Theorem negotiate_then_chain (peer : GstStructure -> bool)
  (push : list Z -> GstFlowReturn) (filter : Gstexclusion) (w h : Z)
  (in_buf : list Z) :
  0 <= w -> 0 <= h ->
  w * h = Z.of_nat (length in_buf) ->
  w * h <= G_MAXINT ->
  let negotiated :=
    fst (gst_exclusion_set_caps peer filter
           {| field_width := Some w; field_height := Some h |}) in
  gst_exclusion_chain push negotiated in_buf
  = Done {| in_data := in_buf;
            pushed := transform_pixel <$> in_buf;
            flow := push (transform_pixel <$> in_buf) |}.
Proof.
  intros Hw Hh Hlen Hmax negotiated.
  assert (Hn : Z.to_nat (imul (width negotiated) (height negotiated))
               = length in_buf).
  { subst negotiated. simpl. unfold imul.
    rewrite to_gint_in_range by (unfold G_MININT; nia). lia. }
  rewrite chain_run by lia. rewrite Hn.
  now rewrite processed_all.
Qed.

Lemma negotiate_then_chain_witness :
  let negotiated :=
    fst (gst_exclusion_set_caps (fun _ => true)
           (gst_exclusion_init instance_alloc)
           {| field_width := Some 2; field_height := Some 1 |}) in
  gst_exclusion_chain accept_all negotiated [0x12645032; 0x00FFFFFF]
  = Done {| in_data := [0x12645032; 0x00FFFFFF];
            pushed := transform_pixel <$> [0x12645032; 0x00FFFFFF];
            flow := accept_all (transform_pixel <$> [0x12645032; 0x00FFFFFF]) |}.
Proof.
  apply (negotiate_then_chain (fun _ => true) accept_all
           (gst_exclusion_init instance_alloc) 2 1 [0x12645032; 0x00FFFFFF]);
    first [reflexivity | unfold G_MAXINT; lia].
Defined.

(** Reading a property back after writing it, through the two [switch]
    statements: for [PROP_SILENT] the value written is read and no warning
    is raised; for any other id both calls raise the warning, the element
    is as it was and the caller's [GValue] keeps its contents.  In neither
    case do width and height change. *)
Theorem property_set_then_get (filter : Gstexclusion) (prop_id : Z)
  (value old : bool) :
  let written := set_property_switch filter prop_id value in
  let read := gst_exclusion_get_property (fst written) prop_id old in
  (prop_id = PROP_SILENT ->
   read = (value, false) /\ snd written = false)
  /\ (prop_id <> PROP_SILENT ->
      read = (old, true) /\ written = (filter, true))
  /\ width (fst written) = width filter
  /\ height (fst written) = height filter.
Proof.
  unfold set_property_switch, gst_exclusion_get_property.
  destruct (Z.eqb_spec prop_id PROP_SILENT) as [-> | Hne]; simpl.
  - repeat split; intros; congruence.
  - repeat split; intros; congruence.
Qed.

(** Writing any property, under any id, leaves the outcome of the chain
    function on every frame as it was: the verbosity flag has no part in
    the processing. *)
Theorem property_does_not_reach_chain (push : list Z -> GstFlowReturn)
  (filter : Gstexclusion) (prop_id : Z) (value : bool) (in_buf : list Z) :
  gst_exclusion_chain push (fst (set_property_switch filter prop_id value))
    in_buf
  = gst_exclusion_chain push filter in_buf.
Proof.
  unfold set_property_switch.
  destruct (prop_id =? PROP_SILENT); reflexivity.
Qed.

Lemma property_set_then_get_witness :
  let written := set_property_switch instance_alloc PROP_SILENT true in
  let read := gst_exclusion_get_property (fst written) PROP_SILENT false in
  (PROP_SILENT = PROP_SILENT ->
   read = (true, false) /\ snd written = false)
  /\ (PROP_SILENT <> PROP_SILENT ->
      read = (false, true) /\ written = (instance_alloc, true))
  /\ width (fst written) = width instance_alloc
  /\ height (fst written) = height instance_alloc.
Proof. apply (property_set_then_get instance_alloc PROP_SILENT true false). Defined.
